(** * errkind: capability queries and constructors for Go errors

    A shallow embedding of [errkind.go] (package [errkind] of
    github.com/jjeffery/errkind) and the properties of its capability
    protocol.

    - Go strings are byte sequences: [string] of the Standard Library, whose
      characters are the 256 bytes.
    - Go's [int] is only ever stored and compared here (no arithmetic), so a
      status is a [Z].
    - An [error] is an interface value: [None] is Go's nil, [Some v] holds the
      dynamic value [v]. *)

From Stdlib Require Import List String Ascii ZArith NArith Bool Lia.
Import ListNotations.

Local Open Scope string_scope.

(* ================================================================== *)
(** * Go's [strings] package, as far as [errkind.go] calls it *)
(* ================================================================== *)

Module Strings.

(** The runes for which [unicode.IsSpace] holds: the six ASCII ones
    (tab, line feed, vertical tab, form feed, carriage return, space),
    U+0085, U+00A0 and the other code points of Unicode's White_Space
    property. *)
Definition space_runes : list N :=
  [ 0x09; 0x0A; 0x0B; 0x0C; 0x0D; 0x20; 0x85; 0xA0; 0x1680;
    0x2000; 0x2001; 0x2002; 0x2003; 0x2004; 0x2005; 0x2006; 0x2007;
    0x2008; 0x2009; 0x200A; 0x2028; 0x2029; 0x202F; 0x205F; 0x3000 ]%N.

Definition byte (n : N) : ascii := ascii_of_N n.

(** UTF-8 encoding of a rune below U+10000 (one, two or three bytes). *)
Definition utf8 (r : N) : list ascii :=
  if (r <? 0x80)%N then [byte r]
  else if (r <? 0x800)%N then
    [byte (0xC0 + r / 64); byte (0x80 + r mod 64)]
  else
    [byte (0xE0 + r / 4096); byte (0x80 + (r / 64) mod 64);
     byte (0x80 + r mod 64)].

Definition space_encodings : list (list ascii) := map utf8 space_runes.

(** [strip_prefix p s] is [Some r] when [s] is [p] followed by [r]. *)
Fixpoint strip_prefix (p s : list ascii) : option (list ascii) :=
  match p, s with
  | [], _ => Some s
  | a :: p', b :: s' => if Ascii.eqb a b then strip_prefix p' s' else None
  | _ :: _, [] => None
  end.

(** The rest of [s] after the first of the encodings [encs] it starts with. *)
Fixpoint first_strip (encs : list (list ascii)) (s : list ascii)
  : option (list ascii) :=
  match encs with
  | [] => None
  | p :: encs' =>
      match strip_prefix p s with
      | Some r => Some r
      | None => first_strip encs' s
      end
  end.

(** The trimming loop: while the string starts with one of [encs], drop it.
    Every iteration consumes at least a byte, so [length s] rounds are
    enough. *)
Fixpoint trim_loop (encs : list (list ascii)) (fuel : nat) (s : list ascii)
  : list ascii :=
  match fuel with
  | O => s
  | S fuel' =>
      match first_strip encs s with
      | Some r => trim_loop encs fuel' r
      | None => s
      end
  end.

(** [strings.TrimLeftFunc(s, unicode.IsSpace)]: runes are decoded from the
    front and dropped while they are white space.  A byte sequence decodes
    to a white-space rune exactly when it is that rune's UTF-8 encoding
    (anything malformed decodes to U+FFFD, which is not white space). *)
Definition trim_left (s : list ascii) : list ascii :=
  trim_loop space_encodings (List.length s) s.

(** [strings.TrimRightFunc(s, unicode.IsSpace)]: the same from the end,
    the runes being decoded backwards. *)
Definition trim_right (s : list ascii) : list ascii :=
  rev (trim_loop (map (@rev ascii) space_encodings) (List.length s) (rev s)).

(** [strings.TrimSpace]: "returns a slice of the string s, with all leading
    and trailing white space removed, as defined by Unicode". *)
Definition TrimSpace (s : string) : string :=
  string_of_list_ascii (trim_right (trim_left (list_ascii_of_string s))).

(** [strings.Join(elems, sep)]: the elements, [sep] between each two. *)
Definition Join (elems : list string) (sep : string) : string :=
  String.concat sep elems.

(** ** What "blank" and "trimmed" mean, independently of the loops above *)

(** A concatenation of byte sequences taken from [encs]. *)
Inductive tokens (encs : list (list ascii)) : list ascii -> Prop :=
| tokens_nil : tokens encs []
| tokens_cons p s :
    In p encs -> tokens encs s -> tokens encs (p ++ s)%list.

(** The string is empty or consists of white space only: it is a
    concatenation of encodings of white-space runes. *)
Definition whitespace_only (s : string) : Prop :=
  tokens space_encodings (list_ascii_of_string s).

(** The string starts, respectively ends, with a white-space rune. *)
Definition leading_space (s : string) : Prop :=
  exists p t, In p space_encodings /\ list_ascii_of_string s = (p ++ t)%list.

Definition trailing_space (s : string) : Prop :=
  exists p t, In p space_encodings /\ list_ascii_of_string s = (t ++ p)%list.

(** No member of [encs] is empty, and none starts with another. *)
Definition prefix_code (encs : list (list ascii)) : bool :=
  forallb
    (fun p =>
       negb (Nat.eqb (List.length p) 0)
       && forallb
            (fun q =>
               match strip_prefix p q with
               | Some l => Nat.eqb (List.length l) 0
               | None => true
               end)
            encs)
    encs.

End Strings.

Import Strings.

(* ================================================================== *)
(** * Error values *)
(* ================================================================== *)

(** An error type declared outside this package and outside the wrapping
    library: its message and, for each capability interface, the result of
    the method when the type has it ([None]: the type assertion fails).
    Whether the type also has a [Cause()] method is told by the
    constructor of [value] that holds it. *)
Record foreignError : Type := {
  f_Error : string;
  f_Temporary : option bool;
  f_Code : option string;
  f_StatusCode : option Z;
  f_Status : option Z;
  f_Public : option bool
}.

(** A key/value pair of context attached to an error, as it is printed. *)
Definition keyval : Type := (string * string)%type.

(** The dynamic values an [error] can hold.  The first three are the types
    of [errkind.go]; [foreign] is any other error without a [Cause()]
    method; [foreignCauser] is any other error with one, [cause] being what
    the method returns (not nil: the cause resolution of the wrapping
    library returns nil on nil only); [causeT] is the wrapper of
    github.com/jjeffery/errors: a cause, an optional message (empty when
    none was given) and the attached context. *)
Inductive value : Type :=
| publicStatusError (message : string) (status : Z)
| publicStatusCodeError (message : string) (status : Z) (code : string)
| temporaryError (t : string)
| foreign (f : foreignError)
| foreignCauser (f : foreignError) (cause : value)
| causeT (cause : value) (message : string) (context : list keyval).

(** Go's [error] interface: nil or a dynamic value. *)
Definition error : Type := option value.

Definition iface (v : value) : error := Some v.
Coercion iface : value >-> error.

(** ** The type assertions of [errkind.go]

    [err.(coder)] and the like, together with the call of the interface's
    one method when the assertion succeeds. *)

(** [err.(temporaryer)], then [Temporary()]. *)
Definition as_temporaryer (err : value) : option bool :=
  match err with
  | temporaryError _ => Some true
  | foreign f => f_Temporary f
  | foreignCauser f _ => f_Temporary f
  | _ => None
  end.

(** [err.(coder)], then [Code()]. *)
Definition as_coder (err : value) : option string :=
  match err with
  | publicStatusCodeError _ _ code => Some code
  | foreign f => f_Code f
  | foreignCauser f _ => f_Code f
  | _ => None
  end.

(** [err.(statusCoder)], then [StatusCode()]. *)
Definition as_statusCoder (err : value) : option Z :=
  match err with
  | publicStatusError _ status => Some status
  | publicStatusCodeError _ status _ => Some status
  | foreign f => f_StatusCode f
  | foreignCauser f _ => f_StatusCode f
  | _ => None
  end.

(** [err.(statuser)], then [Status()]. *)
Definition as_statuser (err : value) : option Z :=
  match err with
  | publicStatusError _ status => Some status
  | publicStatusCodeError _ status _ => Some status
  | foreign f => f_Status f
  | foreignCauser f _ => f_Status f
  | _ => None
  end.

(** [err.(publicer)], then [Public()]. *)
Definition as_publicer (err : value) : option bool :=
  match err with
  | publicStatusError _ _ => Some true
  | publicStatusCodeError _ _ _ => Some true
  | foreign f => f_Public f
  | foreignCauser f _ => f_Public f
  | _ => None
  end.

(** [err.(causer)], then [Cause()]: the [causer] interface that
    [errkind.go] declares and the cause resolution follows. *)
Definition as_causer (err : value) : option value :=
  match err with
  | causeT cause _ _ => Some cause
  | foreignCauser _ cause => Some cause
  | _ => None
  end.

(* ================================================================== *)
(** * The wrapping library, github.com/jjeffery/errors *)
(* ================================================================== *)

Module errors.

(** Modelled from the spec: [errors.Wrap] of the wrapping library, which is
    not part of this repository: "produces a new error whose cause is
    [err]".  [errkind.go] only ever wraps non-nil errors. *)
Definition Wrap (err : value) (message : string) : value :=
  causeT err message [].

(** Modelled from the spec: the context-attachment facility of the wrapping
    library.  On a wrapper it extends the context; on anything else it is
    [errors.Wrap(s).With(keyvals...)], which is also how
    [publicStatusError.With] and [publicStatusCodeError.With] are written
    in [errkind.go]. *)
Definition With (err : value) (keyvals : list keyval) : value :=
  match err with
  | causeT cause message context => causeT cause message (context ++ keyvals)
  | _ => causeT err "" keyvals
  end.

(** Modelled from the spec: [errors.Cause] of the wrapping library, "walks
    the wrap chain to the innermost error, returning nil only if the input
    was nil".  It follows the [Cause()] method of whatever has one, the
    library's own wrapper or not. *)
Fixpoint Cause_value (err : value) : value :=
  match err with
  | causeT cause _ _ => Cause_value cause
  | foreignCauser _ cause => Cause_value cause
  | _ => err
  end.

Definition Cause (err : error) : error :=
  match err with
  | None => None
  | Some v => Some (Cause_value v)
  end.

(** Modelled from the spec: how the wrapping library prints a context,
    each pair as [key=value] ("wrapped a=b: temp" in the tests of this
    repository). *)
Definition context_text (context : list keyval) : list string :=
  map (fun kv => fst kv ++ "=" ++ snd kv) context.

(** The context attached to an error as given: that of the wrapper, none
    on an error that is not the library's wrapper. *)
Definition Context (err : value) : list keyval :=
  match err with
  | causeT _ _ context => context
  | _ => []
  end.

(** One wrapping step: [errors.Wrap(err, message)] or the attachment of
    context, and a chain of them, the last step first. *)
Inductive wrapping : Type :=
| by_Wrap (message : string)
| by_With (keyvals : list keyval).

Definition wrap_step (w : wrapping) (err : value) : value :=
  match w with
  | by_Wrap message => Wrap err message
  | by_With keyvals => With err keyvals
  end.

Definition wrapped (ws : list wrapping) (err : value) : value :=
  fold_right wrap_step err ws.

End errors.

(** The [Error()] method.  For the types of [errkind.go] it returns the
    message field.  A wrapper with a message prints the message, the
    context, a colon and the cause's message; a wrapper without a message
    prints the cause's message and then the context. *)
Fixpoint Error (err : value) : string :=
  match err with
  | publicStatusError message _ => message
  | publicStatusCodeError message _ _ => message
  | temporaryError t => t
  | foreign f => f_Error f
  | foreignCauser f _ => f_Error f
  | causeT cause message context =>
      if String.eqb message "" then
        match context with
        | [] => Error cause
        | _ => Error cause ++ " " ++ Join (errors.context_text context) " "
        end
      else
        Join (message :: errors.context_text context) " "
        ++ ": " ++ Error cause
  end.

(* ================================================================== *)
(** * errkind.go *)
(* ================================================================== *)

(** [net/http]'s status constants used below. *)
Definition StatusBadRequest : Z := 400.
Definition StatusForbidden : Z := 403.
Definition StatusNotImplemented : Z := 501.

(** The loop [for _, x := range xs { if v == x { return true } }]: whether
    it returns. *)
Definition matches_any {A : Type} (eqb : A -> A -> bool) (v : A) (xs : list A)
  : bool :=
  existsb (eqb v) xs.

Definition HasCode (err : error) (codes : list string) : bool :=
  match errors.Cause err with
  | None => false
  | Some err =>
      match as_coder err with
      | Some errCode => matches_any String.eqb errCode codes
      | None => false
      end
  end.

Definition HasStatus (err : error) (statuses : list Z) : bool :=
  match errors.Cause err with
  | None => false
  | Some err =>
      if match as_statusCoder err with
         | Some errStatus => matches_any Z.eqb errStatus statuses
         | None => false
         end
      then true
      else
        match as_statuser err with
        | Some errStatus => matches_any Z.eqb errStatus statuses
        | None => false
        end
  end.

Definition Status (err : error) : Z :=
  match errors.Cause err with
  | None => 0%Z
  | Some err =>
      match as_statusCoder err with
      | Some status => status
      | None =>
          match as_statuser err with
          | Some status => status
          | None => 0%Z
          end
      end
  end.

Definition Code (err : error) : string :=
  match errors.Cause err with
  | None => ""
  | Some err =>
      match as_coder err with
      | Some code => code
      | None => ""
      end
  end.

Definition IsTemporary (err : error) : bool :=
  match errors.Cause err with
  | None => false
  | Some err =>
      match as_temporaryer err with
      | Some temporary => temporary
      | None => false
      end
  end.

(** The loop of [makeMessage]: [messages] is the slice built so far. *)
Fixpoint makeMessage_loop (msgs : list string) (messages : list string)
  : list string :=
  match msgs with
  | [] => messages
  | msg :: msgs' =>
      let msg := TrimSpace msg in
      if String.eqb msg "" then makeMessage_loop msgs' messages
      else makeMessage_loop msgs' (messages ++ [msg])
  end.

Definition makeMessage (defaultMsg : string) (msgs : list string) : string :=
  let messages := makeMessage_loop msgs [] in
  if Nat.eqb (List.length messages) 0 then defaultMsg
  else Join messages " ".

Definition Public (message : string) (status : Z) : value :=
  publicStatusError message status.

Definition PublicWithCode (message : string) (status : Z) (code : string)
  : value :=
  let code := TrimSpace code in
  if String.eqb code "" then Public message status
  else publicStatusCodeError message status code.

(** No cause resolution here: the assertion is on [err] as given. *)
Definition IsPublic (err : error) : bool :=
  match err with
  | None => false
  | Some err =>
      match as_publicer err with
      | Some public => public
      | None => false
      end
  end.

Definition BadRequest (msg : list string) : value :=
  Public (makeMessage "bad request" msg) StatusBadRequest.

Definition Forbidden (msg : list string) : value :=
  Public (makeMessage "forbidden" msg) StatusForbidden.

(** [caller] is the printed form of [stack.Caller(1)], the call site. *)
Definition NotImplemented (caller : string) (msg : list string) : value :=
  errors.With
    (Public (makeMessage "not implemented" msg) StatusNotImplemented)
    [("caller", caller)].

Definition Temporary (msg : string) : value :=
  errors.Wrap (temporaryError msg) "".

(** ** The message normalisation as the specification words it *)

(** Trim each fragment and discard the blank ones. *)
Definition surviving (msgs : list string) : list string :=
  filter (fun m => negb (String.eqb m "")) (map TrimSpace msgs).

(** Join the survivors with a single space; the default when none survives. *)
Definition makeMessage_spec (defaultMsg : string) (msgs : list string)
  : string :=
  match surviving msgs with
  | [] => defaultMsg
  | survivors => String.concat " " survivors
  end.

(** The errors of the repository's tests that are not built by this
    package: [testingStatusError] has the [Status] method only. *)
Definition testingStatusError (status : Z) : value :=
  foreign {| f_Error := "testing status error"; f_Temporary := None;
             f_Code := None; f_StatusCode := None; f_Status := Some status;
             f_Public := None |}.

(** [makeMessage] joins with the space byte: no member of [encs] has that
    byte after its first byte or before its last one. *)
Definition separator_free (encs : list (list ascii)) : bool :=
  forallb
    (fun p =>
       negb (existsb (Ascii.eqb " "%char) (tl p))
       && negb (existsb (Ascii.eqb " "%char) (removelast p)))
    encs.

(* ================================================================== *)
(** * Go's white-space trimming *)
(* ================================================================== *)

Section Trim.

Local Open Scope list_scope.

Variable encs : list (list ascii).
Hypothesis encs_code : prefix_code encs = true.

Lemma strip_prefix_Some p s r : strip_prefix p s = Some r <-> s = p ++ r.
Proof.
  revert s; induction p as [|a p IH]; intros [|b s]; simpl.
  - split; congruence.
  - split; congruence.
  - split; discriminate.
  - destruct (Ascii.eqb_spec a b) as [->|ne].
    + rewrite IH. split; congruence.
    + split; [discriminate | congruence].
Qed.

Lemma strip_prefix_app p r : strip_prefix p (p ++ r) = Some r.
Proof. now apply strip_prefix_Some. Qed.

Lemma encs_nonempty p : In p encs -> p <> [].
Proof.
  intros Hp ->. unfold prefix_code in encs_code.
  rewrite forallb_forall in encs_code.
  specialize (encs_code _ Hp). discriminate.
Qed.

Lemma encs_prefix_free p q l : In p encs -> In q encs -> q = p ++ l -> l = [].
Proof.
  intros Hp Hq ->. unfold prefix_code in encs_code.
  rewrite forallb_forall in encs_code.
  specialize (encs_code _ Hp). apply andb_prop in encs_code as [_ H].
  rewrite forallb_forall in H. specialize (H _ Hq).
  rewrite strip_prefix_app in H. apply Nat.eqb_eq in H.
  now destruct l.
Qed.

Lemma encs_same_head p q x y :
  In p encs -> In q encs -> p ++ x = q ++ y -> p = q /\ x = y.
Proof.
  intros Hp Hq E.
  destruct (app_eq_app _ _ _ _ E) as [l [[E1 E2]|[E1 E2]]].
  - pose proof (encs_prefix_free q p l Hq Hp E1) as ->.
    rewrite app_nil_r in E1. subst. now split.
  - pose proof (encs_prefix_free p q l Hp Hq E1) as ->.
    rewrite app_nil_r in E1. subst. now split.
Qed.

Lemma first_strip_Some s r :
  first_strip encs s = Some r -> exists p, In p encs /\ s = p ++ r.
Proof.
  clear encs_code. induction encs as [|q l IH]; simpl; [discriminate|].
  destruct (strip_prefix q s) as [r'|] eqn:E.
  - intros [= <-]. apply strip_prefix_Some in E. eauto.
  - intros H. destruct (IH H) as (p & Hp & ->). eauto.
Qed.

Lemma first_strip_None s p r :
  first_strip encs s = None -> In p encs -> s <> p ++ r.
Proof.
  clear encs_code. induction encs as [|q l IH]; simpl; [tauto|].
  destruct (strip_prefix q s) as [r'|] eqn:E; [discriminate|].
  intros H [->|Hp] ->.
  - now rewrite strip_prefix_app in E.
  - now apply (IH H Hp).
Qed.

Lemma first_strip_app p r : In p encs -> first_strip encs (p ++ r) = Some r.
Proof.
  intros Hp. destruct (first_strip encs (p ++ r)) as [r'|] eqn:E.
  - destruct (first_strip_Some _ _ E) as (q & Hq & E').
    now destruct (encs_same_head p q r r' Hp Hq E') as [_ ->].
  - now destruct (first_strip_None _ p r E Hp).
Qed.

Lemma first_strip_nil : first_strip encs [] = None.
Proof.
  destruct (first_strip encs []) as [r|] eqn:E; [|reflexivity].
  destruct (first_strip_Some _ _ E) as (p & Hp & E').
  symmetry in E'. apply app_eq_nil in E' as [-> _].
  now destruct (encs_nonempty [] Hp).
Qed.

Lemma tokens_app a b : tokens encs a -> tokens encs b -> tokens encs (a ++ b).
Proof.
  induction 1 as [|p s Hp _ IH]; intros Hb; simpl; [assumption|].
  rewrite <- app_assoc. constructor; auto.
Qed.

(** The loop only removes members of [encs] from the front. *)
Lemma trim_loop_split fuel s :
  exists w, tokens encs w /\ s = w ++ trim_loop encs fuel s.
Proof.
  revert s; induction fuel as [|fuel IH]; intros s; simpl.
  - exists []. split; [constructor | reflexivity].
  - destruct (first_strip encs s) as [r|] eqn:E.
    + destruct (first_strip_Some _ _ E) as (p & Hp & ->).
      destruct (IH r) as (w & Hw & Er).
      exists (p ++ w). split; [now constructor|].
      rewrite <- app_assoc. now rewrite <- Er.
    + exists []. split; [constructor | reflexivity].
Qed.

(** With fuel for every byte, the loop stops where no member of [encs]
    starts the string. *)
Lemma trim_loop_done fuel s :
  List.length s <= fuel -> first_strip encs (trim_loop encs fuel s) = None.
Proof.
  revert s; induction fuel as [|fuel IH]; intros s Hlen; simpl.
  - destruct s; [apply first_strip_nil | simpl in Hlen; lia].
  - destruct (first_strip encs s) as [r|] eqn:E; [|assumption].
    apply IH. destruct (first_strip_Some _ _ E) as (p & Hp & ->).
    pose proof (encs_nonempty p Hp). rewrite length_app in Hlen.
    destruct p; [congruence | simpl in Hlen; lia].
Qed.

Lemma trim_loop_fixed fuel s :
  first_strip encs s = None -> trim_loop encs fuel s = s.
Proof. intros H. destruct fuel; simpl; [reflexivity | now rewrite H]. Qed.

Lemma trim_loop_tokens w : forall fuel t,
  tokens encs w -> List.length w <= fuel -> first_strip encs t = None ->
  trim_loop encs fuel (w ++ t) = t.
Proof.
  intros fuel t Hw; revert fuel.
  induction Hw as [|p s Hp _ IH]; intros fuel Hlen Ht.
  - now apply trim_loop_fixed.
  - pose proof (encs_nonempty p Hp). rewrite length_app in Hlen.
    destruct fuel as [|fuel]; [destruct p; [congruence | simpl in Hlen; lia]|].
    simpl. rewrite <- app_assoc, (first_strip_app p _ Hp).
    apply IH; [|assumption]. destruct p; [congruence | simpl in Hlen; lia].
Qed.

End Trim.

Lemma string_of_list_ascii_app a b :
  string_of_list_ascii (a ++ b) = string_of_list_ascii a ++ string_of_list_ascii b.
Proof. induction a as [|c a IH]; simpl; [reflexivity | now rewrite IH]. Qed.

Lemma list_ascii_of_string_app a b :
  list_ascii_of_string (a ++ b)
  = (list_ascii_of_string a ++ list_ascii_of_string b)%list.
Proof. induction a as [|c a IH]; simpl; [reflexivity | now rewrite IH]. Qed.

Lemma space_code : prefix_code space_encodings = true.
Proof. vm_compute. reflexivity. Qed.

Lemma space_code_rev : prefix_code (map (@rev ascii) space_encodings) = true.
Proof. vm_compute. reflexivity. Qed.

Lemma tokens_rev encs x :
  tokens (map (@rev ascii) encs) x -> tokens encs (rev x).
Proof.
  induction 1 as [|p s Hp _ IH]; [constructor|].
  rewrite rev_app_distr. apply in_map_iff in Hp as (q & <- & Hq).
  rewrite rev_involutive. revert IH. generalize (rev s). intros a Ha.
  induction Ha as [|p' s' Hp' _ IH']; simpl.
  - rewrite <- (app_nil_r q). now repeat constructor.
  - rewrite <- app_assoc. now constructor.
Qed.

(** What the left trim returns: the input without a white-space prefix,
    and no white-space rune starts it. *)
Lemma trim_left_spec s :
  exists w, tokens space_encodings w /\ s = (w ++ trim_left s)%list
            /\ first_strip space_encodings (trim_left s) = None.
Proof.
  unfold trim_left.
  destruct (trim_loop_split space_encodings (List.length s) s) as (w & Hw & E).
  exists w. repeat split; try assumption.
  apply (trim_loop_done _ space_code). lia.
Qed.

(** What the right trim returns: the input without a white-space suffix,
    and no white-space rune ends it. *)
Lemma trim_right_spec s :
  exists w, tokens space_encodings w /\ s = (trim_right s ++ w)%list
            /\ first_strip (map (@rev ascii) space_encodings)
                 (rev (trim_right s)) = None.
Proof.
  unfold trim_right. set (encs' := map (@rev ascii) space_encodings).
  destruct (trim_loop_split encs' (List.length s) (rev s)) as (w & Hw & E).
  exists (rev w). split; [now apply tokens_rev|]. split.
  - rewrite <- rev_app_distr, <- E. now rewrite rev_involutive.
  - rewrite rev_involutive. apply (trim_loop_done _ space_code_rev).
    rewrite length_rev. lia.
Qed.

Lemma first_strip_leading s :
  first_strip space_encodings (list_ascii_of_string s) = None <->
  ~ leading_space s.
Proof.
  split.
  - intros H (p & t & Hp & E). exact (first_strip_None _ _ p t H Hp E).
  - intros H. destruct (first_strip _ _) as [r|] eqn:E; [|reflexivity].
    destruct (first_strip_Some _ _ _ E) as (p & Hp & E').
    destruct H. now exists p, r.
Qed.

Lemma first_strip_trailing s :
  first_strip (map (@rev ascii) space_encodings)
    (rev (list_ascii_of_string s)) = None <->
  ~ trailing_space s.
Proof.
  split.
  - intros H (p & t & Hp & E). rewrite E, rev_app_distr in H.
    exact (first_strip_None _ _ (rev p) (rev t) H (in_map _ _ _ Hp) eq_refl).
  - intros H. destruct (first_strip _ _) as [r|] eqn:E; [|reflexivity].
    destruct (first_strip_Some _ _ _ E) as (p & Hp & E').
    apply in_map_iff in Hp as (q & <- & Hq).
    destruct H. exists q, (rev r). split; [assumption|].
    rewrite <- (rev_involutive (list_ascii_of_string s)), E'.
    now rewrite rev_app_distr, rev_involutive.
Qed.

(** [TrimSpace] removes a white-space prefix and a white-space suffix. *)
Lemma TrimSpace_decompose s :
  exists l r, whitespace_only l /\ whitespace_only r /\
              s = l ++ TrimSpace s ++ r.
Proof.
  unfold TrimSpace, whitespace_only.
  destruct (trim_left_spec (list_ascii_of_string s)) as (wl & Hl & El & _).
  destruct (trim_right_spec (trim_left (list_ascii_of_string s)))
    as (wr & Hr & Er & _).
  exists (string_of_list_ascii wl), (string_of_list_ascii wr).
  rewrite !list_ascii_of_string_of_list_ascii. repeat split; try assumption.
  rewrite <- (string_of_list_ascii_of_string s) at 1.
  rewrite El, Er at 1.
  rewrite !string_of_list_ascii_app. reflexivity.
Qed.

(** The result of [TrimSpace] does not end with white space. *)
Lemma TrimSpace_no_trailing s : ~ trailing_space (TrimSpace s).
Proof.
  apply first_strip_trailing. unfold TrimSpace.
  rewrite list_ascii_of_string_of_list_ascii.
  now destruct (trim_right_spec (trim_left (list_ascii_of_string s)))
    as (_ & _ & _ & H).
Qed.

(** The result of [TrimSpace] does not start with white space. *)
Lemma TrimSpace_no_leading s : ~ leading_space (TrimSpace s).
Proof.
  unfold TrimSpace, leading_space.
  rewrite list_ascii_of_string_of_list_ascii.
  destruct (trim_left_spec (list_ascii_of_string s)) as (_ & _ & _ & Hl).
  destruct (trim_right_spec (trim_left (list_ascii_of_string s)))
    as (wr & _ & Er & _).
  intros (p & t & Hp & E). rewrite Er, E, <- app_assoc in Hl.
  exact (first_strip_None _ _ p _ Hl Hp eq_refl).
Qed.

(** A string without surrounding white space is returned as it is. *)
Lemma TrimSpace_fixed s :
  ~ leading_space s -> ~ trailing_space s -> TrimSpace s = s.
Proof.
  intros Hl Hr. apply first_strip_leading in Hl.
  apply first_strip_trailing in Hr. unfold TrimSpace, trim_left, trim_right.
  rewrite (trim_loop_fixed _ _ _ Hl), (trim_loop_fixed _ _ _ Hr).
  now rewrite rev_involutive, string_of_list_ascii_of_string.
Qed.

(** [TrimSpace] returns the empty string exactly on the strings that are
    empty or white space only. *)
Lemma TrimSpace_blank s : whitespace_only s <-> TrimSpace s = "".
Proof.
  split.
  - unfold whitespace_only, TrimSpace. intros H.
    assert (E : trim_left (list_ascii_of_string s) = []).
    { unfold trim_left.
      rewrite <- (app_nil_r (list_ascii_of_string s)) at 2.
      apply (trim_loop_tokens _ space_code); auto. }
    rewrite E. reflexivity.
  - intros E. destruct (TrimSpace_decompose s) as (l & r & Hl & Hr & Es).
    rewrite E in Es. simpl in Es. unfold whitespace_only in *.
    rewrite Es, list_ascii_of_string_app. now apply tokens_app.
Qed.

(** Tabs, line ends and the no-break space U+00A0 (bytes C2 A0) go from
    both ends; white space inside stays, and so does a stray byte A0. *)
Example TrimSpace_examples :
  TrimSpace "  custom " = "custom"
  /\ TrimSpace (String (byte 9) "bad request" ++ String (byte 10) "") = "bad request"
  /\ TrimSpace (string_of_list_ascii (utf8 0xA0) ++ "a b"
                ++ string_of_list_ascii (utf8 0x2003)) = "a b"
  /\ TrimSpace (String (byte 0xA0) " x") = String (byte 0xA0) " x"
  /\ TrimSpace "   " = "".
Proof. vm_compute. repeat split. Qed.

(* ================================================================== *)
(** * The tests of the repository, run on the embedding *)
(* ================================================================== *)

Example TestCode :
  let wrapped := errors.With (PublicWithCode "test error" 0 "CODE") [("a", "b")] in
  HasCode None ["A"; "B"; "C"] = false /\ Code None = ""
  /\ HasCode (PublicWithCode "test error" 0 "CODE") ["A"; "B"; "C"] = false
  /\ HasCode wrapped ["A"; "B"; "C"] = false /\ Code wrapped = "CODE"
  /\ Code (errors.With (PublicWithCode "test error" 0 "") [("a", "b")]) = ""
  /\ HasCode (PublicWithCode "test error" 0 "CODE") ["A"; "B"; "CODE"] = true
  /\ HasCode wrapped ["A"; "B"; "CODE"] = true.
Proof. vm_compute. repeat split. Qed.

Example TestStatus :
  let wrapped := errors.With (PublicWithCode "test error" 501 "CODE") [("a", "b")] in
  HasStatus None [500%Z] = false /\ Status None = 0%Z
  /\ HasStatus (Public "test error" 501) [400; 401; 402]%Z = false
  /\ Status (Public "test error" 501) = 501%Z
  /\ HasStatus wrapped [400; 401; 402]%Z = false /\ Status wrapped = 501%Z
  /\ HasStatus (Public "test error" 501) [500; 501]%Z = true
  /\ HasStatus (testingStatusError 501) [400; 401; 402]%Z = false
  /\ Status (testingStatusError 501) = 501%Z
  /\ HasStatus (testingStatusError 402) [400; 401; 402]%Z = true.
Proof. vm_compute. repeat split. Qed.

Example TestTemporary :
  let wrapped :=
    errors.With (errors.Wrap (Temporary "temp") "wrapped") [("a", "b")] in
  IsTemporary None = false
  /\ IsTemporary (Temporary "temp") = true /\ Error (Temporary "temp") = "temp"
  /\ IsTemporary wrapped = true /\ Error wrapped = "wrapped a=b: temp".
Proof. vm_compute. repeat split. Qed.

Example TestPublic :
  let wrapped :=
    errors.With (errors.Wrap (PublicWithCode "public" 401 "YYY") "wrapped")
      [("a", "b")] in
  IsPublic None = false
  /\ IsPublic (Public "public" 400) = true
  /\ IsPublic (PublicWithCode "public" 400 "XXX") = true
  /\ Code (PublicWithCode "public" 400 "XXX") = "XXX"
  /\ IsPublic wrapped = false /\ Error wrapped = "wrapped a=b: public"
  /\ Status wrapped = 401%Z /\ Code wrapped = "YYY".
Proof. vm_compute. repeat split. Qed.

(* ================================================================== *)
(** * Capability queries *)
(* ================================================================== *)

Lemma matches_any_In_Z v xs : matches_any Z.eqb v xs = true <-> In v xs.
Proof.
  unfold matches_any. rewrite existsb_exists. split.
  - intros (x & Hx & E). apply Z.eqb_eq in E. now subst.
  - intros H. exists v. split; [assumption | apply Z.eqb_refl].
Qed.

Lemma matches_any_In_string v xs :
  matches_any String.eqb v xs = true <-> In v xs.
Proof.
  unfold matches_any. rewrite existsb_exists. split.
  - intros (x & Hx & E). apply String.eqb_eq in E. now subst.
  - intros H. exists v. split; [assumption | apply String.eqb_refl].
Qed.

(** An error without a [Cause()] method is its own cause. *)
Lemma no_causer_is_cause (e : value) :
  as_causer e = None -> errors.Cause_value e = e.
Proof. destruct e; simpl; try discriminate; reflexivity. Qed.

(** A wrapper has none of the capabilities. *)
Lemma Wrap_not_public (e : value) message :
  IsPublic (errors.Wrap e message) = false.
Proof. reflexivity. Qed.

Lemma With_not_public (e : value) keyvals :
  IsPublic (errors.With e keyvals) = false.
Proof. destruct e; reflexivity. Qed.

Lemma Cause_Wrap (e : value) message :
  errors.Cause_value (errors.Wrap e message) = errors.Cause_value e.
Proof. reflexivity. Qed.

Lemma Cause_With (e : value) keyvals :
  errors.Cause_value (errors.With e keyvals) = errors.Cause_value e.
Proof. destruct e; reflexivity. Qed.

(** Resolving twice is resolving once. *)
Lemma Cause_idempotent (e : value) :
  errors.Cause_value (errors.Cause_value e) = errors.Cause_value e.
Proof. induction e; simpl; auto. Qed.

(** C1, as amended: [IsPublic] tests the error as given, without resolving
    the cause chain.  It is true exactly when the error itself implements
    [publicer] and [Public()] returns true.  For an error [e] that reports
    itself public, the error obtained by wrapping it ([errors.Wrap]) or by
    attaching context to it ([With]) is not public, while the cause of the
    wrapped error is as public as the cause of [e]; that is as public as
    [e] itself when [e] has no [Cause()] method, as is every error that
    [Public] and [PublicWithCode] build. *)
Theorem IsPublic_as_given :
  (forall err : error,
      IsPublic err = true <->
      exists v, err = Some v /\ as_publicer v = Some true)
  /\ (forall (e : value) (message : string) (keyvals : list keyval),
         IsPublic e = true ->
         IsPublic (errors.Wrap e message) = false
         /\ IsPublic (errors.With e keyvals) = false
         /\ IsPublic (errors.Cause (errors.Wrap e message))
            = IsPublic (errors.Cause e)
         /\ IsPublic (errors.Cause (errors.With e keyvals))
            = IsPublic (errors.Cause e))
  /\ (forall (e : value) (message : string) (keyvals : list keyval),
         IsPublic e = true -> as_causer e = None ->
         IsPublic (errors.Cause (errors.Wrap e message)) = IsPublic e
         /\ IsPublic (errors.Cause (errors.With e keyvals)) = IsPublic e)
  /\ (forall (message : string) (status : Z) (code : string),
         as_causer (Public message status) = None
         /\ as_causer (PublicWithCode message status code) = None).
Proof.
  split; [|split; [|split]].
  - intros [v|]; simpl.
    + split.
      * destruct (as_publicer v) as [[|]|] eqn:E; try discriminate. eauto.
      * intros (v' & [= <-] & ->). reflexivity.
    + split; [discriminate | intros (v & [=] & _)].
  - intros e message keyvals He. split; [apply Wrap_not_public|].
    split; [apply With_not_public|].
    unfold iface, errors.Cause. now rewrite Cause_Wrap, Cause_With.
  - intros e message keyvals He Hc.
    unfold iface, errors.Cause. rewrite Cause_Wrap, Cause_With.
    now rewrite (no_causer_is_cause e Hc).
  - intros message status code. split; [reflexivity|].
    unfold PublicWithCode. now destruct (String.eqb (TrimSpace code) "").
Qed.

Lemma IsPublic_as_given_witness :
  IsPublic (Public "public" 401) = true
  /\ (IsPublic (errors.Wrap (Public "public" 401) "wrapped") = false
      /\ IsPublic (errors.With (Public "public" 401) [("a", "b")]) = false
      /\ IsPublic (errors.Cause (errors.Wrap (Public "public" 401) "wrapped"))
         = IsPublic (errors.Cause (Public "public" 401))
      /\ IsPublic (errors.Cause (errors.With (Public "public" 401) [("a", "b")]))
         = IsPublic (errors.Cause (Public "public" 401)))
  /\ (IsPublic (errors.Cause (errors.Wrap (Public "public" 401) "wrapped"))
      = IsPublic (Public "public" 401)
      /\ IsPublic (errors.Cause (errors.With (Public "public" 401) [("a", "b")]))
         = IsPublic (Public "public" 401)).
Proof.
  split; [reflexivity|]. split.
  - apply (proj1 (proj2 IsPublic_as_given)
             (Public "public" 401) "wrapped" [("a", "b")]).
    reflexivity.
  - apply (proj1 (proj2 (proj2 IsPublic_as_given))
             (Public "public" 401) "wrapped" [("a", "b")]);
      reflexivity.
Defined.

(** C1, as stated, fails: an error of another package can report itself
    public and have a [Cause()] method whose result is not public; the
    cause of what wraps it is then not public, although the error is. *)
Lemma public_causer_of_private_cause :
  ~ (forall (e : value) (message : string),
        IsPublic e = true ->
        IsPublic (errors.Wrap e message) = false
        /\ IsPublic (errors.Cause (errors.Wrap e message)) = IsPublic e).
Proof.
  intros H.
  destruct (H (foreignCauser
                 {| f_Error := "request refused"; f_Temporary := None;
                    f_Code := None; f_StatusCode := None; f_Status := None;
                    f_Public := Some true |}
                 (foreign
                    {| f_Error := "dial tcp 10.0.0.7:5432: refused";
                       f_Temporary := None; f_Code := None;
                       f_StatusCode := None; f_Status := None;
                       f_Public := None |}))
              "wrapped" eq_refl) as [_ E].
  vm_compute in E. discriminate E.
Qed.

(** C2: for a non-nil error, [HasStatus] is true exactly when the value of
    the resolved cause's [StatusCode()] or the value of its [Status()] is
    one of the targets.  The two checks are independent: a cause whose
    [StatusCode()] matches no target but whose [Status()] matches one gives
    true, and a cause that has [Status()] only, with value 402, matches
    [HasStatus(err, 402)]. *)
Theorem HasStatus_either_interface :
  (forall (err : value) (statuses : list Z),
      HasStatus err statuses = true <->
      (exists s, as_statusCoder (errors.Cause_value err) = Some s
                 /\ In s statuses)
      \/ (exists s, as_statuser (errors.Cause_value err) = Some s
                    /\ In s statuses))
  /\ (forall (err : value) (statuses : list Z) (code status : Z),
         as_statusCoder (errors.Cause_value err) = Some code ->
         ~ In code statuses ->
         as_statuser (errors.Cause_value err) = Some status ->
         In status statuses ->
         HasStatus err statuses = true)
  /\ (forall err : value,
         as_statusCoder (errors.Cause_value err) = None ->
         as_statuser (errors.Cause_value err) = Some 402%Z ->
         HasStatus err [402%Z] = true).
Proof.
  assert (iff : forall (err : value) statuses,
             HasStatus err statuses = true <->
             (exists s, as_statusCoder (errors.Cause_value err) = Some s
                        /\ In s statuses)
             \/ (exists s, as_statuser (errors.Cause_value err) = Some s
                           /\ In s statuses)).
  { intros err statuses. unfold HasStatus, iface, errors.Cause.
    destruct (as_statusCoder (errors.Cause_value err)) as [sc|];
      destruct (as_statuser (errors.Cause_value err)) as [st|].
    - destruct (matches_any Z.eqb sc statuses) eqn:E1.
      + apply matches_any_In_Z in E1. split; eauto.
      + rewrite matches_any_In_Z. split.
        * eauto.
        * intros [(s & [= <-] & H)|(s & [= <-] & H)]; [|assumption].
          apply matches_any_In_Z in H. congruence.
    - destruct (matches_any Z.eqb sc statuses) eqn:E1.
      + apply matches_any_In_Z in E1. split; eauto.
      + split; [discriminate|].
        intros [(s & [= <-] & H)|(s & [=] & _)].
        apply matches_any_In_Z in H. congruence.
    - rewrite matches_any_In_Z. split; [eauto|].
      now intros [(s & [=] & _)|(s & [= <-] & H)].
    - split; [discriminate|]. now intros [(s & [=] & _)|(s & [=] & _)]. }
  split; [exact iff|]. split.
  - intros err statuses code status _ _ Hst Hin. apply iff. eauto.
  - intros err _ Hst. apply iff. right. exists 402%Z. simpl. auto.
Qed.

Lemma HasStatus_either_interface_witness :
  let both :=
    foreign {| f_Error := "both"; f_Temporary := None; f_Code := None;
               f_StatusCode := Some 500%Z; f_Status := Some 402%Z;
               f_Public := None |} in
  HasStatus (errors.Wrap both "wrapped") [400; 401; 402]%Z = true
  /\ HasStatus (testingStatusError 402) [402%Z] = true.
Proof.
  split.
  - apply (proj1 (proj2 HasStatus_either_interface)
             (errors.Wrap
                (foreign {| f_Error := "both"; f_Temporary := None;
                            f_Code := None; f_StatusCode := Some 500%Z;
                            f_Status := Some 402%Z; f_Public := None |})
                "wrapped")
             [400; 401; 402]%Z 500%Z 402%Z).
    + reflexivity.
    + simpl. lia.
    + reflexivity.
    + simpl. lia.
  - apply (proj2 (proj2 HasStatus_either_interface) (testingStatusError 402));
      reflexivity.
Defined.

(** C5: on nil every cause-resolving query returns its zero value:
    [HasCode] and [HasStatus] false for any target list, [Code] the empty
    string, [Status] zero, [IsTemporary] false. *)
Theorem queries_on_nil :
  (forall codes, HasCode None codes = false)
  /\ Code None = ""
  /\ (forall statuses, HasStatus None statuses = false)
  /\ Status None = 0%Z
  /\ IsTemporary None = false.
Proof. repeat split. Qed.

(** C10: [IsPublic(nil)] is false: the assertion to [publicer] fails on a
    nil interface value. *)
Theorem IsPublic_nil : IsPublic None = false.
Proof. reflexivity. Qed.

(* ================================================================== *)
(** * Constructors *)
(* ================================================================== *)

(** [PublicWithCode] on a code that trims to something: the variant with a
    code, holding the trimmed code. *)
Lemma PublicWithCode_coded message status code :
  TrimSpace code <> "" ->
  PublicWithCode message status code
  = publicStatusCodeError message status (TrimSpace code).
Proof.
  intros H. unfold PublicWithCode.
  destruct (String.eqb_spec (TrimSpace code) ""); [contradiction | reflexivity].
Qed.

Lemma not_blank_trim code : ~ whitespace_only code <-> TrimSpace code <> "".
Proof. now rewrite TrimSpace_blank. Qed.

(** C3, as amended: for every message, every status and every code that
    is not blank, [PublicWithCode] gives an error whose [Status] is the
    status, whose [Code] is the code with the surrounding white space
    removed, and which is public; [Code] is the code as supplied when that
    has no white space around it. *)
Theorem PublicWithCode_queries (message : string) (status : Z) (code : string) :
  ~ whitespace_only code ->
  Status (PublicWithCode message status code) = status
  /\ Code (PublicWithCode message status code) = TrimSpace code
  /\ IsPublic (PublicWithCode message status code) = true
  /\ (~ leading_space code -> ~ trailing_space code ->
      Code (PublicWithCode message status code) = code).
Proof.
  intros H. apply not_blank_trim in H.
  rewrite (PublicWithCode_coded _ _ _ H). repeat split.
  intros Hl Hr. simpl. now apply TrimSpace_fixed.
Qed.

Lemma PublicWithCode_queries_witness :
  Status (PublicWithCode "public" 400 "XXX") = 400%Z
  /\ Code (PublicWithCode "public" 400 "XXX") = TrimSpace "XXX"
  /\ IsPublic (PublicWithCode "public" 400 "XXX") = true
  /\ (~ leading_space "XXX" -> ~ trailing_space "XXX" ->
      Code (PublicWithCode "public" 400 "XXX") = "XXX").
Proof.
  apply (PublicWithCode_queries "public" 400 "XXX").
  intros H. apply TrimSpace_blank in H. vm_compute in H. discriminate H.
Defined.

(** C3, as stated, fails: the code " X " is not blank, and [Code] returns
    "X", not the string supplied. *)
Lemma PublicWithCode_code_not_as_given :
  ~ (forall (message : string) (status : Z) (code : string),
        ~ whitespace_only code ->
        Status (PublicWithCode message status code) = status
        /\ Code (PublicWithCode message status code) = code
        /\ IsPublic (PublicWithCode message status code) = true).
Proof.
  intros H. destruct (H "test error" 0%Z " X ") as (_ & E & _).
  - intros W. apply TrimSpace_blank in W. vm_compute in W. discriminate W.
  - vm_compute in E. discriminate E.
Qed.

(** C4: with a code that is empty or white space only, [PublicWithCode]
    returns the very value [Public] returns: it has no [Code] method,
    [Code] of it is empty, and both results are public with the same
    status. *)
Theorem PublicWithCode_blank_is_Public
  (message : string) (status : Z) (code : string) :
  whitespace_only code ->
  PublicWithCode message status code = Public message status
  /\ as_coder (PublicWithCode message status code) = None
  /\ Code (PublicWithCode message status code) = ""
  /\ IsPublic (PublicWithCode message status code) = true
  /\ IsPublic (Public message status) = true
  /\ Status (PublicWithCode message status code) = status
  /\ Status (Public message status) = status.
Proof.
  intros H. apply TrimSpace_blank in H.
  assert (E : PublicWithCode message status code = Public message status).
  { unfold PublicWithCode. now rewrite H. }
  rewrite E. repeat split.
Qed.

Lemma PublicWithCode_blank_is_Public_witness :
  PublicWithCode "test error" 0 "  " = Public "test error" 0
  /\ Code (PublicWithCode "test error" 0 "  ") = "".
Proof.
  assert (W : whitespace_only "  ").
  { apply (tokens_cons space_encodings [" "%char] [" "%char]).
    - vm_compute. tauto.
    - apply (tokens_cons space_encodings [" "%char] []).
      + vm_compute. tauto.
      + constructor. }
  destruct (PublicWithCode_blank_is_Public "test error" 0 "  " W)
    as (E & _ & C & _).
  split; [exact E | exact C].
Defined.

(** C9: when the code trims to something, [Code] of [PublicWithCode] is the
    code with the surrounding white space removed.  So a result that has
    the [Code] method never reports a code that starts or ends with white
    space, nor an empty one, and what it reports can differ from the string
    the caller supplied. *)
Theorem Code_is_trimmed :
  (forall (message : string) (status : Z) (code : string),
      TrimSpace code <> "" ->
      Code (PublicWithCode message status code) = TrimSpace code
      /\ exists l r, whitespace_only l /\ whitespace_only r
                     /\ code = l ++ Code (PublicWithCode message status code) ++ r)
  /\ (forall (message : string) (status : Z) (code reported : string),
         as_coder (PublicWithCode message status code) = Some reported ->
         reported <> "" /\ ~ leading_space reported
         /\ ~ trailing_space reported)
  /\ (forall (message : string) (status : Z),
         Code (PublicWithCode message status " X ") = "X").
Proof.
  split; [|split].
  - intros message status code H.
    rewrite (PublicWithCode_coded _ _ _ H). simpl. split; [reflexivity|].
    apply TrimSpace_decompose.
  - intros message status code reported. unfold PublicWithCode.
    destruct (String.eqb_spec (TrimSpace code) "") as [E|NE]; simpl;
      [discriminate|].
    intros [= <-]. split; [assumption|].
    split; [apply TrimSpace_no_leading | apply TrimSpace_no_trailing].
  - reflexivity.
Qed.

Lemma Code_is_trimmed_witness :
  TrimSpace " CODE " <> ""
  /\ Code (PublicWithCode "test error" 0 " CODE ") = TrimSpace " CODE ".
Proof.
  assert (H : TrimSpace " CODE " <> "") by (vm_compute; discriminate).
  split; [exact H|].
  exact (proj1 (proj1 Code_is_trimmed "test error" 0%Z " CODE " H)).
Defined.

(** A temporary error stays temporary under any wrapping. *)
Lemma IsTemporary_Cause (e : value) :
  IsTemporary e = IsTemporary (errors.Cause_value e).
Proof.
  unfold IsTemporary, iface, errors.Cause. now rewrite Cause_idempotent.
Qed.

(** C6: for every message [x], [Temporary(x)] is temporary and its
    [Error()] is [x]; and a temporary error is still temporary after it is
    wrapped or given context, the query resolving to the cause. *)
Theorem Temporary_stays_temporary :
  (forall x : string,
      IsTemporary (Temporary x) = true /\ Error (Temporary x) = x)
  /\ (forall (x message : string) (keyvals : list keyval),
         IsTemporary (errors.Wrap (Temporary x) message) = true
         /\ IsTemporary (errors.With (errors.Wrap (Temporary x) message) keyvals)
            = true)
  /\ (forall (e : value) (message : string) (keyvals : list keyval),
         IsTemporary e = true ->
         IsTemporary (errors.Wrap e message) = true
         /\ IsTemporary (errors.With e keyvals) = true).
Proof.
  split; [|split].
  - intros x. split; reflexivity.
  - intros x message keyvals. split; reflexivity.
  - intros e message keyvals He.
    rewrite (IsTemporary_Cause (errors.Wrap e message)), Cause_Wrap.
    rewrite (IsTemporary_Cause (errors.With e keyvals)), Cause_With.
    rewrite <- IsTemporary_Cause. now split.
Qed.

Lemma Temporary_stays_temporary_witness :
  IsTemporary (errors.Wrap (Temporary "x") "y") = true
  /\ IsTemporary (errors.With (Temporary "x") [("a", "b")]) = true.
Proof.
  apply (proj2 (proj2 Temporary_stays_temporary) (Temporary "x") "y" [("a", "b")]).
  reflexivity.
Defined.

(** ** Message normalisation *)

(** The loop appends the survivors, in order, to what it was given. *)
Lemma makeMessage_loop_surviving msgs : forall messages,
  makeMessage_loop msgs messages = (messages ++ surviving msgs)%list.
Proof.
  unfold surviving.
  induction msgs as [|msg msgs IH]; intros messages; simpl.
  - now rewrite app_nil_r.
  - destruct (String.eqb (TrimSpace msg) ""); simpl; rewrite IH.
    + reflexivity.
    + now rewrite <- app_assoc.
Qed.

Lemma makeMessage_refines defaultMsg msgs :
  makeMessage defaultMsg msgs = makeMessage_spec defaultMsg msgs.
Proof.
  unfold makeMessage, makeMessage_spec, Join.
  rewrite makeMessage_loop_surviving. simpl.
  now destruct (surviving msgs).
Qed.

(** The survivors are the trimmed forms of the fragments that are not
    blank. *)
Lemma surviving_In msgs m :
  In m (surviving msgs) <->
  exists fragment, In fragment msgs /\ ~ whitespace_only fragment
                   /\ m = TrimSpace fragment.
Proof.
  unfold surviving. rewrite filter_In, in_map_iff. split.
  - intros ((f & <- & Hf) & Hne). exists f. repeat split; try assumption.
    rewrite TrimSpace_blank. intros E. rewrite E in Hne. discriminate.
  - intros (f & Hf & Hb & ->). split; [eauto|].
    rewrite TrimSpace_blank in Hb.
    now destruct (String.eqb_spec (TrimSpace f) "").
Qed.

Lemma surviving_blank msgs :
  Forall whitespace_only msgs <-> surviving msgs = [].
Proof.
  split.
  - intros H. destruct (surviving msgs) as [|m l] eqn:E; [reflexivity|].
    assert (Hm : In m (surviving msgs)) by (rewrite E; now left).
    apply surviving_In in Hm as (f & Hf & Hb & _).
    rewrite Forall_forall in H. now destruct Hb; apply H.
  - intros E. apply Forall_forall. intros f Hf.
    destruct (String.eqb_spec (TrimSpace f) "") as [Ef|NE].
    + now apply TrimSpace_blank.
    + assert (Hm : In (TrimSpace f) (surviving msgs)).
      { apply surviving_In. exists f. repeat split; try assumption.
        now rewrite TrimSpace_blank. }
      rewrite E in Hm. destruct Hm.
Qed.

(** Joining survivors never gives the empty string. *)
Lemma join_surviving_nonempty msgs :
  surviving msgs <> [] -> String.concat " " (surviving msgs) <> "".
Proof.
  destruct (surviving msgs) as [|m l] eqn:E; [congruence|]. intros _.
  assert (Hm : In m (surviving msgs)) by (rewrite E; now left).
  unfold surviving in Hm. apply filter_In in Hm as [_ Hm].
  destruct m as [|c m]; [discriminate|].
  simpl. destruct l; discriminate.
Qed.

(** C7, as amended: [makeMessage] trims each fragment, discards the blank
    ones and joins the survivors with a single space; it returns the
    default when no fragment survives and the join, which is never empty,
    when one does.  A list of fragments gives back every default it is
    called with exactly when none of its fragments survives.  With default
    "bad request" and fragments "", "  ", "custom" the result is "custom",
    and with fragments that are all blank it is the default. *)
Theorem makeMessage_normalizes :
  (forall defaultMsg msgs,
      makeMessage defaultMsg msgs = makeMessage_spec defaultMsg msgs)
  /\ (forall defaultMsg msgs,
         surviving msgs = [] -> makeMessage defaultMsg msgs = defaultMsg)
  /\ (forall defaultMsg msgs,
         surviving msgs <> [] ->
         makeMessage defaultMsg msgs = String.concat " " (surviving msgs)
         /\ makeMessage defaultMsg msgs <> "")
  /\ (forall msgs,
         (forall defaultMsg, makeMessage defaultMsg msgs = defaultMsg)
         <-> surviving msgs = [])
  /\ makeMessage "bad request" [""; "  "; "custom"] = "custom"
  /\ (forall defaultMsg msgs,
         Forall whitespace_only msgs ->
         makeMessage defaultMsg msgs = defaultMsg).
Proof.
  assert (none : forall defaultMsg msgs,
             surviving msgs = [] -> makeMessage defaultMsg msgs = defaultMsg).
  { intros d msgs E. rewrite makeMessage_refines. unfold makeMessage_spec.
    now rewrite E. }
  assert (some : forall defaultMsg msgs,
             surviving msgs <> [] ->
             makeMessage defaultMsg msgs = String.concat " " (surviving msgs)).
  { intros d msgs NE. rewrite makeMessage_refines. unfold makeMessage_spec.
    destruct (surviving msgs); [congruence | reflexivity]. }
  split; [exact makeMessage_refines|]. split; [exact none|]. split.
  - intros d msgs NE. rewrite (some d msgs NE).
    split; [reflexivity | now apply join_surviving_nonempty].
  - split; [split|split].
    + intros H. destruct (surviving msgs) as [|m l] eqn:E; [reflexivity|].
      assert (NE : surviving msgs <> []) by (rewrite E; discriminate).
      pose proof (join_surviving_nonempty msgs NE) as J.
      rewrite <- (some "" msgs NE) in J. now destruct J.
    + intros E d. now apply none.
    + reflexivity.
    + intros d msgs H. apply none. now apply surviving_blank.
Qed.

Lemma makeMessage_normalizes_witness :
  makeMessage "bad request" [""; "  "] = "bad request"
  /\ makeMessage "bad request" [" not"; ""; "valid "] = "not valid".
Proof.
  split.
  - apply (proj1 (proj2 makeMessage_normalizes) "bad request" [""; "  "]).
    reflexivity.
  - apply (proj1 (proj2 (proj2 makeMessage_normalizes))
             "bad request" [" not"; ""; "valid "]).
    vm_compute. discriminate.
Defined.

(** C7, as stated, fails: with the default "custom" and the one fragment
    "custom" the default is what comes back although a fragment
    survives. *)
Lemma makeMessage_default_with_survivor :
  ~ (forall defaultMsg msgs,
        makeMessage defaultMsg msgs = defaultMsg <-> surviving msgs = []).
Proof.
  intros H. destruct (H "custom" ["custom"]) as [H1 _].
  specialize (H1 eq_refl). vm_compute in H1. discriminate H1.
Qed.

(** ** The convenience constructors *)

(** C8, as amended: for every list of fragments, [BadRequest] and
    [Forbidden] return a public error with status 400 and 403.
    [NotImplemented] builds the public error with status 501 and returns
    it with the caller location attached as context: the wrapping
    library's wrapper around that error, with no message and the one
    pair [caller].  It is not public itself, its cause is that public
    error, and [Status], which resolves the cause, gives 501. *)
Theorem convenience_constructors (caller : string) (msg : list string) :
  (IsPublic (BadRequest msg) = true /\ Status (BadRequest msg) = 400%Z
   /\ Error (BadRequest msg) = makeMessage "bad request" msg)
  /\ (IsPublic (Forbidden msg) = true /\ Status (Forbidden msg) = 403%Z
      /\ Error (Forbidden msg) = makeMessage "forbidden" msg)
  /\ (Status (NotImplemented caller msg) = 501%Z
      /\ IsPublic (NotImplemented caller msg) = false
      /\ errors.Cause (NotImplemented caller msg)
         = Public (makeMessage "not implemented" msg) 501
      /\ IsPublic (errors.Cause (NotImplemented caller msg)) = true
      /\ NotImplemented caller msg
         = causeT (publicStatusError (makeMessage "not implemented" msg) 501)
             "" [("caller", caller)]
      /\ as_causer (NotImplemented caller msg)
         = Some (Public (makeMessage "not implemented" msg) 501)
      /\ errors.Context (NotImplemented caller msg) = [("caller", caller)])
  /\ (errors.Context (BadRequest msg) = []
      /\ errors.Context (Forbidden msg) = []).
Proof. repeat split. Qed.

(** C8, as stated, fails: what [NotImplemented] returns is not a public
    error. *)
Lemma NotImplemented_not_public :
  ~ (forall (caller : string) (msg : list string),
        (IsPublic (BadRequest msg) = true /\ Status (BadRequest msg) = 400%Z)
        /\ (IsPublic (Forbidden msg) = true /\ Status (Forbidden msg) = 403%Z)
        /\ (IsPublic (NotImplemented caller msg) = true
            /\ Status (NotImplemented caller msg) = 501%Z)).
Proof.
  intros H. destruct (H "main.go:42" []) as (_ & _ & P & _).
  vm_compute in P. discriminate P.
Qed.

(* ================================================================== *)
(** * Further properties of the queries *)
(* ================================================================== *)

(** X1: [HasCode] and [Code] agree on an error that reports a code:
    [HasCode] true puts [Code(err)] among the targets, and when [Code(err)]
    is not empty [HasCode] is membership of it.  An error whose cause has
    no [Code] method matches no target, not even the empty string that
    [Code] returns for it. *)
Theorem HasCode_agrees_with_Code :
  (forall (err : error) (codes : list string),
      HasCode err codes = true -> In (Code err) codes)
  /\ (forall (err : error) (codes : list string),
         Code err <> "" ->
         (HasCode err codes = true <-> In (Code err) codes))
  /\ (forall (err : value) (codes : list string),
         as_coder (errors.Cause_value err) = None ->
         HasCode err codes = false /\ Code err = "").
Proof.
  split; [|split].
  - intros [v|] codes; unfold HasCode, Code; simpl; [|discriminate].
    destruct (as_coder (errors.Cause_value v)); [|discriminate].
    now rewrite matches_any_In_string.
  - intros [v|] codes; unfold HasCode, Code; simpl; [|congruence].
    destruct (as_coder (errors.Cause_value v)); [|congruence].
    intros _. apply matches_any_In_string.
  - intros err codes H. unfold HasCode, Code, iface; simpl.
    now rewrite H.
Qed.

Lemma HasCode_agrees_with_Code_witness :
  In (Code (errors.With (PublicWithCode "test error" 0 "CODE") [("a", "b")]))
     ["A"; "B"; "CODE"]
  /\ HasCode (Public "test error" 0) [""] = false.
Proof.
  split.
  - apply (proj1 HasCode_agrees_with_Code
             (errors.With (PublicWithCode "test error" 0 "CODE") [("a", "b")])
             ["A"; "B"; "CODE"]).
    reflexivity.
  - apply (proj2 (proj2 HasCode_agrees_with_Code)
             (Public "test error" 0) [""]).
    reflexivity.
Defined.

(** X2: [Status] and [HasStatus].  A status that [Status] reports and that
    is not zero is matched by [HasStatus].  When the cause has both
    methods, [Status] reports [StatusCode()] while [HasStatus] matches
    [Status()] as well, so it can match a status that [Status] does not
    report.  When the cause has neither method, [HasStatus] matches
    nothing, zero included, and [Status] is zero. *)
Theorem Status_and_HasStatus :
  (forall (err : error) (statuses : list Z),
      Status err <> 0%Z -> In (Status err) statuses ->
      HasStatus err statuses = true)
  /\ (forall (err : value) (code status : Z),
         as_statusCoder (errors.Cause_value err) = Some code ->
         as_statuser (errors.Cause_value err) = Some status ->
         Status err = code
         /\ HasStatus err [code] = true /\ HasStatus err [status] = true)
  /\ (forall (err : value) (statuses : list Z),
         as_statusCoder (errors.Cause_value err) = None ->
         as_statuser (errors.Cause_value err) = None ->
         HasStatus err statuses = false /\ Status err = 0%Z).
Proof.
  split; [|split].
  - intros [v|] statuses; unfold Status, HasStatus; simpl; [|congruence].
    destruct (as_statusCoder (errors.Cause_value v)) as [sc|].
    + intros _ H. apply matches_any_In_Z in H. now rewrite H.
    + destruct (as_statuser (errors.Cause_value v)) as [st|]; [|congruence].
      intros _ H. now apply matches_any_In_Z.
  - intros err code status Hc Hs. unfold Status, HasStatus, iface; simpl.
    rewrite Hc, Hs. unfold matches_any; simpl. rewrite !Z.eqb_refl.
    repeat split. now destruct (code =? status)%Z.
  - intros err statuses Hc Hs. unfold Status, HasStatus, iface; simpl.
    now rewrite Hc, Hs.
Qed.

Lemma Status_and_HasStatus_witness :
  let both :=
    foreign {| f_Error := "both"; f_Temporary := None; f_Code := None;
               f_StatusCode := Some 500%Z; f_Status := Some 402%Z;
               f_Public := None |} in
  HasStatus (testingStatusError 402) [400; 401; 402]%Z = true
  /\ (Status both = 500%Z /\ HasStatus both [500%Z] = true
      /\ HasStatus both [402%Z] = true)
  /\ (HasStatus (Temporary "temp") [0%Z] = false
      /\ Status (Temporary "temp") = 0%Z).
Proof.
  split; [|split].
  - apply (proj1 Status_and_HasStatus (testingStatusError 402)
             [400; 401; 402]%Z).
    + vm_compute. discriminate.
    + vm_compute. tauto.
  - apply (proj1 (proj2 Status_and_HasStatus)
             (foreign {| f_Error := "both"; f_Temporary := None;
                         f_Code := None; f_StatusCode := Some 500%Z;
                         f_Status := Some 402%Z; f_Public := None |})
             500%Z 402%Z); reflexivity.
  - apply (proj2 (proj2 Status_and_HasStatus) (Temporary "temp") [0%Z]);
      reflexivity.
Defined.

(** X3: on an error built by [Public] or [PublicWithCode], wrapped or
    not, [HasStatus] is membership of the status it was built with,
    whatever the code; this holds for the status zero too, which
    [HasStatus] so tells apart from an error without a status. *)
Theorem HasStatus_of_public (message : string) (status : Z) (code : string)
  (statuses : list Z) (wrapper : string) (keyvals : list keyval) :
  (HasStatus (Public message status) statuses = true <-> In status statuses)
  /\ (HasStatus (PublicWithCode message status code) statuses = true
      <-> In status statuses)
  /\ (HasStatus
        (errors.With (errors.Wrap (PublicWithCode message status code) wrapper)
           keyvals) statuses = true
      <-> In status statuses).
Proof.
  assert (P : forall v : value,
             as_statusCoder (errors.Cause_value v) = Some status ->
             as_statuser (errors.Cause_value v) = Some status ->
             (HasStatus v statuses = true <-> In status statuses)).
  { intros v Hc Hs. unfold HasStatus, iface; simpl. rewrite Hc, Hs.
    rewrite <- matches_any_In_Z.
    now destruct (matches_any Z.eqb status statuses). }
  unfold PublicWithCode.
  split; [|split]; apply P;
    try (now destruct (String.eqb (TrimSpace code) "")); reflexivity.
Qed.

(** Every cause-resolving query is a function of the resolved cause. *)
Lemma queries_of_Cause (e : value) :
  (forall codes, HasCode e codes = HasCode (errors.Cause_value e) codes)
  /\ (forall statuses,
         HasStatus e statuses = HasStatus (errors.Cause_value e) statuses)
  /\ Status e = Status (errors.Cause_value e)
  /\ Code e = Code (errors.Cause_value e).
Proof.
  unfold HasCode, HasStatus, Status, Code, iface, errors.Cause.
  rewrite Cause_idempotent. repeat split.
Qed.

(** X4: wrapping an error, or attaching context to it, changes the result
    of no cause-resolving query: [HasCode], [Code], [HasStatus], [Status]
    and [IsTemporary] give on the new error what they give on the old, for
    every target list; and they give the same on the resolved cause. *)
Theorem queries_see_through_wrapping (e : value) (message : string)
  (keyvals : list keyval) (codes : list string) (statuses : list Z) :
  (HasCode (errors.Wrap e message) codes = HasCode e codes
   /\ Code (errors.Wrap e message) = Code e
   /\ HasStatus (errors.Wrap e message) statuses = HasStatus e statuses
   /\ Status (errors.Wrap e message) = Status e
   /\ IsTemporary (errors.Wrap e message) = IsTemporary e)
  /\ (HasCode (errors.With e keyvals) codes = HasCode e codes
      /\ Code (errors.With e keyvals) = Code e
      /\ HasStatus (errors.With e keyvals) statuses = HasStatus e statuses
      /\ Status (errors.With e keyvals) = Status e
      /\ IsTemporary (errors.With e keyvals) = IsTemporary e)
  /\ (HasCode (errors.Cause e) codes = HasCode e codes
      /\ Code (errors.Cause e) = Code e
      /\ HasStatus (errors.Cause e) statuses = HasStatus e statuses
      /\ Status (errors.Cause e) = Status e
      /\ IsTemporary (errors.Cause e) = IsTemporary e).
Proof.
  destruct (queries_of_Cause e) as (hc & hs & st & co).
  split; [|split].
  - destruct (queries_of_Cause (errors.Wrap e message)) as (hc' & hs' & st' & co').
    rewrite hc', hs', st', co', (IsTemporary_Cause (errors.Wrap e message)).
    rewrite Cause_Wrap, hc, hs, st, co, (IsTemporary_Cause e). repeat split.
  - destruct (queries_of_Cause (errors.With e keyvals)) as (hc' & hs' & st' & co').
    rewrite hc', hs', st', co', (IsTemporary_Cause (errors.With e keyvals)).
    rewrite Cause_With, hc, hs, st, co, (IsTemporary_Cause e). repeat split.
  - change (errors.Cause e) with (iface (errors.Cause_value e)).
    rewrite hc, hs, st, co, (IsTemporary_Cause e). repeat split.
Qed.

(** X5: the targets of [HasCode] and [HasStatus] are tried one by one:
    a list of targets matches exactly when one of its two parts does, and
    the empty list never matches. *)
Theorem targets_are_alternatives (err : error) :
  (forall codes codes',
      HasCode err (codes ++ codes') = HasCode err codes || HasCode err codes')
  /\ (forall statuses statuses',
         HasStatus err (statuses ++ statuses')
         = HasStatus err statuses || HasStatus err statuses')
  /\ HasCode err [] = false
  /\ HasStatus err [] = false.
Proof.
  unfold HasCode, HasStatus, matches_any.
  destruct err as [v|]; simpl; [|repeat split].
  destruct (as_coder (errors.Cause_value v)) as [c|];
    destruct (as_statusCoder (errors.Cause_value v)) as [sc|];
    destruct (as_statuser (errors.Cause_value v)) as [st|];
    repeat split; intros; rewrite ?existsb_app; simpl;
    repeat match goal with
           | |- context [existsb ?f ?l] => destruct (existsb f l); simpl
           end; reflexivity.
Qed.

Lemma Cause_wrapped (ws : list errors.wrapping) (e : value) :
  errors.Cause_value (errors.wrapped ws e) = errors.Cause_value e.
Proof.
  induction ws as [|w ws IH]; [reflexivity|].
  change (errors.wrapped (w :: ws) e)
    with (errors.wrap_step w (errors.wrapped ws e)).
  destruct w; unfold errors.wrap_step;
    [rewrite Cause_Wrap | rewrite Cause_With]; exact IH.
Qed.

(** X6: publicness and the cause.  Through any chain of wrappings and
    context attachments the publicness of the resolved cause stays what it
    was.  So an error built by [Public] or [PublicWithCode] is always
    found public by testing [IsPublic] on the cause, as the package
    advises, however it was wrapped, while as given it is public only
    when the chain is empty. *)
Theorem IsPublic_of_Cause (ws : list errors.wrapping) :
  (forall e : value,
      IsPublic (errors.Cause (errors.wrapped ws e))
      = IsPublic (errors.Cause e)
      /\ IsPublic (errors.Cause (errors.Cause e)) = IsPublic (errors.Cause e))
  /\ (forall (message : string) (status : Z) (code : string),
         IsPublic (errors.Cause
                     (errors.wrapped ws (PublicWithCode message status code)))
         = true
         /\ IsPublic (errors.Cause (errors.wrapped ws (Public message status)))
            = true
         /\ (IsPublic (errors.wrapped ws (PublicWithCode message status code))
             = true <-> ws = [])
         /\ (IsPublic (errors.wrapped ws (Public message status)) = true
             <-> ws = [])).
Proof.
  assert (P : forall e : value,
             IsPublic e = true ->
             (IsPublic (errors.wrapped ws e) = true <-> ws = [])).
  { intros e He. destruct ws as [|w ws'].
    - simpl. tauto.
    - split; [|discriminate].
      change (errors.wrapped (w :: ws') e)
        with (errors.wrap_step w (errors.wrapped ws' e)).
      destruct w; unfold errors.wrap_step;
        [rewrite Wrap_not_public | rewrite With_not_public]; discriminate. }
  assert (Q : forall message status code,
             IsPublic (PublicWithCode message status code) = true
             /\ errors.Cause_value (PublicWithCode message status code)
                = PublicWithCode message status code).
  { intros message status code. unfold PublicWithCode.
    now destruct (String.eqb (TrimSpace code) ""). }
  split.
  - intros e. unfold iface, errors.Cause.
    now rewrite Cause_wrapped, Cause_idempotent.
  - intros message status code. destruct (Q message status code) as [Qp Qc].
    unfold iface, errors.Cause at 1 2. rewrite !Cause_wrapped, Qc.
    repeat split; try exact Qp; try (apply P; assumption); apply P; reflexivity.
Qed.

(* ================================================================== *)
(** * Further properties of the constructors *)
(* ================================================================== *)

Lemma TrimSpace_idempotent s : TrimSpace (TrimSpace s) = TrimSpace s.
Proof.
  apply TrimSpace_fixed; [apply TrimSpace_no_leading | apply TrimSpace_no_trailing].
Qed.

(** X7: [PublicWithCode] reads its code through [strings.TrimSpace] only:
    two codes with the same trimmed form give the same error, so trimming
    the code beforehand changes nothing.  The message is kept as supplied.
    [HasCode] on the result matches exactly when the trimmed code is not
    empty and is one of the targets. *)
Theorem PublicWithCode_trims (message : string) (status : Z) (code : string) :
  (forall code', TrimSpace code' = TrimSpace code ->
                 PublicWithCode message status code'
                 = PublicWithCode message status code)
  /\ PublicWithCode message status (TrimSpace code)
     = PublicWithCode message status code
  /\ Error (PublicWithCode message status code) = message
  /\ (forall codes,
         HasCode (PublicWithCode message status code) codes = true
         <-> TrimSpace code <> "" /\ In (TrimSpace code) codes).
Proof.
  assert (same : forall code', TrimSpace code' = TrimSpace code ->
                               PublicWithCode message status code'
                               = PublicWithCode message status code).
  { intros code' E. unfold PublicWithCode. now rewrite E. }
  split; [exact same|]. split; [apply same, TrimSpace_idempotent|].
  unfold PublicWithCode.
  destruct (String.eqb_spec (TrimSpace code) "") as [E|NE].
  - split; [reflexivity|]. intros codes. split; [discriminate|]. tauto.
  - split; [reflexivity|]. intros codes. unfold HasCode; simpl.
    rewrite matches_any_In_string. tauto.
Qed.

Lemma PublicWithCode_trims_witness :
  PublicWithCode "test error" 0 " CODE" = PublicWithCode "test error" 0 "CODE ".
Proof.
  apply (proj1 (PublicWithCode_trims "test error" 0%Z "CODE ") " CODE").
  reflexivity.
Defined.

(** X8: the capabilities of the package's errors do not mix.  An error of
    [Temporary] has no status and no code, matches no status and no code
    and is not public, not even its cause.  An error of [Public] or
    [PublicWithCode] is never temporary, and one of [Public] matches no
    code. *)
Theorem capabilities_do_not_mix (message : string) (status : Z)
  (code : string) (codes : list string) (statuses : list Z) :
  (Status (Temporary message) = 0%Z /\ Code (Temporary message) = ""
   /\ HasStatus (Temporary message) statuses = false
   /\ HasCode (Temporary message) codes = false
   /\ IsPublic (Temporary message) = false
   /\ IsPublic (errors.Cause (Temporary message)) = false)
  /\ (IsTemporary (Public message status) = false
      /\ HasCode (Public message status) codes = false
      /\ Code (Public message status) = "")
  /\ IsTemporary (PublicWithCode message status code) = false.
Proof.
  repeat split. unfold PublicWithCode.
  now destruct (String.eqb (TrimSpace code) "").
Qed.

(** ** The messages [makeMessage] builds *)

Lemma string_app_assoc (a b c : string) : (a ++ b) ++ c = a ++ b ++ c.
Proof. induction a as [|x a IH]; simpl; [reflexivity | now rewrite IH]. Qed.

Lemma concat_app sep (l1 l2 : list string) :
  l1 <> [] -> l2 <> [] ->
  String.concat sep (l1 ++ l2)
  = String.concat sep l1 ++ sep ++ String.concat sep l2.
Proof.
  intros H1 H2. induction l1 as [|x l1 IH]; [congruence|].
  destruct l1 as [|y l1].
  - simpl. destruct l2; [congruence | reflexivity].
  - change (String.concat sep ((x :: y :: l1) ++ l2))
      with (x ++ sep ++ String.concat sep ((y :: l1) ++ l2)).
    rewrite IH by discriminate.
    change (String.concat sep (x :: y :: l1))
      with (x ++ sep ++ String.concat sep (y :: l1)).
    now rewrite !string_app_assoc.
Qed.

Lemma surviving_app a b : surviving (a ++ b) = (surviving a ++ surviving b)%list.
Proof. unfold surviving. now rewrite map_app, filter_app. Qed.

Lemma space_separator_free : separator_free space_encodings = true.
Proof. vm_compute. reflexivity. Qed.

Lemma existsb_space_app l l' :
  existsb (Ascii.eqb " "%char) (l ++ " "%char :: l') = true.
Proof. rewrite existsb_app. simpl. now rewrite orb_true_r. Qed.

(** White space cannot start in a trimmed word and end in the separator
    that follows it. *)
Lemma no_leading_join a x :
  a <> "" -> ~ leading_space a -> ~ leading_space (a ++ " " ++ x).
Proof.
  intros Ha Hl (p & t & Hp & E).
  rewrite !list_ascii_of_string_app in E. simpl in E.
  apply app_eq_app in E as [l [[E1 E2]|[E1 E2]]].
  - apply Hl. now exists p, l.
  - destruct l as [|c l].
    + rewrite app_nil_r in E1. apply Hl. exists p, [].
      split; [assumption | now rewrite app_nil_r, E1].
    + injection E2 as <- _.
      pose proof space_separator_free as F. unfold separator_free in F.
      rewrite forallb_forall in F. specialize (F p Hp).
      apply andb_prop in F as [F _]. rewrite E1 in F.
      destruct a as [|c0 a]; [congruence|]. simpl in F.
      now rewrite existsb_space_app in F.
Qed.

Lemma existsb_space_removelast l c l' :
  existsb (Ascii.eqb " "%char) (removelast (l ++ " "%char :: c :: l')) = true.
Proof.
  rewrite removelast_app by discriminate.
  change (removelast (" "%char :: c :: l'))
    with (" "%char :: removelast (c :: l')).
  apply existsb_space_app.
Qed.

(** Nor can it start in the separator and end in the trimmed word after
    it. *)
Lemma no_trailing_join a x :
  a <> "" -> ~ trailing_space a -> ~ trailing_space (x ++ " " ++ a).
Proof.
  intros Ha Hr (p & t & Hp & E).
  rewrite !list_ascii_of_string_app in E. simpl in E.
  pose proof space_separator_free as F. unfold separator_free in F.
  rewrite forallb_forall in F. specialize (F p Hp).
  apply andb_prop in F as [_ F].
  destruct a as [|c0 a]; [congruence|]. simpl in E.
  apply app_eq_app in E as [l [[E1 E2]|[E1 E2]]].
  - rewrite E2, existsb_space_removelast in F. discriminate F.
  - destruct l as [|c l].
    + simpl in E2. rewrite <- E2 in F.
      pose proof (existsb_space_removelast [] c0 (list_ascii_of_string a)) as G.
      cbn [app] in G. rewrite G in F. discriminate F.
    + injection E2 as _ E2. apply Hr. exists p, l. split; [assumption|].
      simpl. exact E2.
Qed.

(** Non-empty, and no white space at either end. *)
Lemma surviving_trimmed msgs m :
  In m (surviving msgs) ->
  m <> "" /\ ~ leading_space m /\ ~ trailing_space m.
Proof.
  intros H. apply surviving_In in H as (f & _ & Hb & ->).
  split; [now rewrite <- TrimSpace_blank|].
  split; [apply TrimSpace_no_leading | apply TrimSpace_no_trailing].
Qed.

Lemma join_trimmed (l : list string) :
  l <> [] ->
  (forall m, In m l -> m <> "" /\ ~ leading_space m /\ ~ trailing_space m) ->
  ~ leading_space (String.concat " " l) /\ ~ trailing_space (String.concat " " l).
Proof.
  intros NE H. split.
  - destruct l as [|m l]; [congruence|].
    destruct (H m (or_introl eq_refl)) as (Hm & Hl & _).
    destruct l as [|m' l]; [exact Hl|].
    change (String.concat " " (m :: m' :: l))
      with (m ++ " " ++ String.concat " " (m' :: l)).
    now apply no_leading_join.
  - destruct (exists_last NE) as (l0 & m & ->).
    destruct (H m) as (Hm & _ & Hr); [apply in_or_app; right; now left|].
    destruct l0 as [|m' l0]; [exact Hr|].
    rewrite concat_app by discriminate. simpl (String.concat " " [m]).
    now apply no_trailing_join.
Qed.

Lemma makeMessage_survivors defaultMsg msgs :
  surviving msgs <> [] ->
  makeMessage defaultMsg msgs = String.concat " " (surviving msgs).
Proof.
  intros NE. rewrite makeMessage_refines. unfold makeMessage_spec.
  destruct (surviving msgs); [congruence | reflexivity].
Qed.

Lemma makeMessage_no_survivor defaultMsg msgs :
  surviving msgs = [] -> makeMessage defaultMsg msgs = defaultMsg.
Proof.
  intros E. rewrite makeMessage_refines. unfold makeMessage_spec. now rewrite E.
Qed.

Lemma makeMessage_one defaultMsg m :
  TrimSpace m <> "" -> makeMessage defaultMsg [m] = TrimSpace m.
Proof.
  intros H. unfold makeMessage. simpl.
  now destruct (String.eqb_spec (TrimSpace m) "").
Qed.

(** A message built from a default that is not empty and has no white
    space around it is not empty and has none either. *)
Lemma makeMessage_keeps_trimmed defaultMsg msgs :
  defaultMsg <> "" -> ~ leading_space defaultMsg ->
  ~ trailing_space defaultMsg ->
  makeMessage defaultMsg msgs <> ""
  /\ ~ leading_space (makeMessage defaultMsg msgs)
  /\ ~ trailing_space (makeMessage defaultMsg msgs).
Proof.
  intros Hd Hl Hr. destruct (surviving msgs) as [|m l] eqn:E.
  - now rewrite (makeMessage_no_survivor _ _ E).
  - assert (NE : surviving msgs <> []) by (rewrite E; discriminate).
    rewrite (makeMessage_survivors _ _ NE).
    split; [now apply join_surviving_nonempty|].
    apply join_trimmed; [assumption | apply surviving_trimmed].
Qed.

(** X9: how [makeMessage] treats a list made of two.  Blank fragments
    count for nothing wherever they stand, so an empty or all-blank list
    gives the default; when both parts have a fragment that survives, the
    message of the whole is the messages of the parts with a space
    between; a single fragment that is not blank gives its trimmed form. *)
Theorem makeMessage_of_parts (defaultMsg : string) (msgs blanks : list string) :
  (Forall whitespace_only blanks ->
   makeMessage defaultMsg (msgs ++ blanks) = makeMessage defaultMsg msgs
   /\ makeMessage defaultMsg (blanks ++ msgs) = makeMessage defaultMsg msgs
   /\ makeMessage defaultMsg blanks = defaultMsg)
  /\ (forall msgs' : list string,
         surviving msgs <> [] -> surviving msgs' <> [] ->
         makeMessage defaultMsg (msgs ++ msgs')
         = makeMessage defaultMsg msgs ++ " " ++ makeMessage defaultMsg msgs')
  /\ (forall msg : string,
         ~ whitespace_only msg -> makeMessage defaultMsg [msg] = TrimSpace msg).
Proof.
  split; [|split].
  - intros H. apply surviving_blank in H.
    rewrite !makeMessage_refines. unfold makeMessage_spec.
    now rewrite !surviving_app, H, app_nil_r.
  - intros msgs' NE NE'.
    rewrite (makeMessage_survivors _ msgs NE), (makeMessage_survivors _ msgs' NE').
    rewrite makeMessage_survivors, surviving_app.
    + now apply concat_app.
    + rewrite surviving_app. destruct (surviving msgs); [congruence | discriminate].
  - intros msg H. apply makeMessage_one. now rewrite <- TrimSpace_blank.
Qed.

Lemma makeMessage_of_parts_witness :
  makeMessage "bad request" ([" not"; "valid "] ++ [""; "  "])
  = makeMessage "bad request" [" not"; "valid "]
  /\ makeMessage "bad request" ([" not"] ++ ["valid "])
     = makeMessage "bad request" [" not"] ++ " "
       ++ makeMessage "bad request" ["valid "].
Proof.
  split.
  - apply (proj1 (makeMessage_of_parts "bad request" [" not"; "valid "] [""; "  "])).
    repeat constructor.
    apply (tokens_cons space_encodings [" "%char] [" "%char]).
    + vm_compute. tauto.
    + apply (tokens_cons space_encodings [" "%char] []).
      * vm_compute. tauto.
      * constructor.
  - apply (proj1 (proj2 (makeMessage_of_parts "bad request" [" not"] []))
             ["valid "]); vm_compute; discriminate.
Defined.

(** X10: a message [makeMessage] builds from fragments is trimmed: when a
    fragment survives, the result is not empty and neither starts nor ends
    with white space, although the white space inside a fragment is kept.
    Hence building a message from its own result changes nothing, as long
    as the default is itself not empty and trimmed. *)
Theorem makeMessage_is_trimmed (defaultMsg : string) (msgs : list string) :
  (surviving msgs <> [] ->
   makeMessage defaultMsg msgs <> ""
   /\ ~ leading_space (makeMessage defaultMsg msgs)
   /\ ~ trailing_space (makeMessage defaultMsg msgs)
   /\ TrimSpace (makeMessage defaultMsg msgs) = makeMessage defaultMsg msgs)
  /\ (defaultMsg <> "" -> ~ leading_space defaultMsg ->
      ~ trailing_space defaultMsg ->
      forall other : string,
        makeMessage other [makeMessage defaultMsg msgs]
        = makeMessage defaultMsg msgs).
Proof.
  split.
  - intros NE. rewrite (makeMessage_survivors _ _ NE).
    destruct (join_trimmed (surviving msgs) NE (surviving_trimmed msgs))
      as [Hl Hr].
    split; [now apply join_surviving_nonempty|]. split; [exact Hl|].
    split; [exact Hr | now apply TrimSpace_fixed].
  - intros Hd Hl Hr other.
    destruct (makeMessage_keeps_trimmed defaultMsg msgs Hd Hl Hr)
      as (Hn & Hl' & Hr').
    pose proof (TrimSpace_fixed _ Hl' Hr') as E.
    rewrite makeMessage_one; [exact E | now rewrite E].
Qed.

Lemma makeMessage_is_trimmed_witness :
  TrimSpace (makeMessage "bad request" ["  not "; " valid  "])
  = makeMessage "bad request" ["  not "; " valid  "].
Proof.
  destruct (proj1 (makeMessage_is_trimmed "bad request" ["  not "; " valid  "]))
    as (_ & _ & _ & E).
  - vm_compute. discriminate.
  - exact E.
Defined.

Lemma default_messages_trimmed :
  forall d, In d ["bad request"; "forbidden"; "not implemented"] ->
            d <> "" /\ ~ leading_space d /\ ~ trailing_space d.
Proof.
  intros d H. simpl in H.
  destruct H as [<-|[<-|[<-|[]]]];
    (split; [discriminate|]);
    (split; [apply first_strip_leading | apply first_strip_trailing]);
    vm_compute; reflexivity.
Qed.

(** X11: the messages of the convenience constructors.  Whatever the
    fragments, the message of [BadRequest], of [Forbidden] and of the cause
    of [NotImplemented] is not empty and has no white space at its ends;
    with no fragment, or blank ones only, it is "bad request", "forbidden"
    and "not implemented"; with a single fragment that is not blank it is
    that fragment trimmed. *)
Theorem convenience_messages (caller : string) (msg : list string) :
  let messages :=
    [Error (BadRequest msg); Error (Forbidden msg);
     Error (errors.Cause_value (NotImplemented caller msg))] in
  (forall m, In m messages ->
             m <> "" /\ ~ leading_space m /\ ~ trailing_space m)
  /\ (Forall whitespace_only msg ->
      messages = ["bad request"; "forbidden"; "not implemented"])
  /\ (forall one : string,
         msg = [one] -> ~ whitespace_only one ->
         messages = [TrimSpace one; TrimSpace one; TrimSpace one]).
Proof.
  simpl. split; [|split].
  - intros m [<-|[<-|[<-|[]]]]; apply makeMessage_keeps_trimmed;
      apply default_messages_trimmed; simpl; tauto.
  - intros H. apply surviving_blank in H.
    now rewrite !(makeMessage_no_survivor _ _ H).
  - intros one -> H. rewrite TrimSpace_blank in H.
    now rewrite !(makeMessage_one _ _ H).
Qed.

Lemma convenience_messages_witness :
  [Error (BadRequest []); Error (Forbidden []);
   Error (errors.Cause_value (NotImplemented "main.go:42" []))]
  = ["bad request"; "forbidden"; "not implemented"].
Proof.
  apply (proj1 (proj2 (convenience_messages "main.go:42" []))).
  constructor.
Defined.
